(** * Shallow embedding of [python_service/xssSecure.py] (class [XSSSecurityAnalyzer])

    Python [str] values are modelled as Rocq [string]s of ASCII characters;
    the string and regex helpers follow Python on ASCII text, and the
    theorems whose outcome depends on them assume ASCII inputs.
    The numeric [score] (ints and [0.5] steps) is modelled exactly in [Q].
    The external collaborators (the HTTP client, BeautifulSoup's parsed tree,
    [urljoin]'s relative resolution) are inputs of the model; [urlparse] and
    [parse_qs], whose results decide the URL-parameter phase, are modelled. *)

From Stdlib Require Import String Ascii List QArith ZArith Bool Lia Lqa.
From Stdlib Require Import Numbers.DecimalString.
Import ListNotations.
Open Scope string_scope.
Open Scope bool_scope.

(** ** Python string operations used by the analyzer *)
Module PyStr.

Fixpoint startswith (pre s : string) : bool :=
  match pre, s with
  | EmptyString, _ => true
  | String c p, String d s' => Ascii.eqb c d && startswith p s'
  | String _ _, EmptyString => false
  end.

(** [needle in hay] *)
Fixpoint contains (needle hay : string) : bool :=
  startswith needle hay ||
  match hay with
  | EmptyString => false
  | String _ h => contains needle h
  end.

Definition lower_char (c : ascii) : ascii :=
  let n := nat_of_ascii c in
  if (65 <=? n)%nat && (n <=? 90)%nat then ascii_of_nat (n + 32) else c.

Definition upper_char (c : ascii) : ascii :=
  let n := nat_of_ascii c in
  if (97 <=? n)%nat && (n <=? 122)%nat then ascii_of_nat (n - 32) else c.

Fixpoint map_chars (f : ascii -> ascii) (s : string) : string :=
  match s with
  | EmptyString => EmptyString
  | String c s' => String (f c) (map_chars f s')
  end.

Definition lower (s : string) : string := map_chars lower_char s.
Definition upper (s : string) : string := map_chars upper_char s.

(** [str.isspace] on ASCII: \t \n \v \f \r, \x1c-\x1f and space; also [\s]. *)
Definition is_space (c : ascii) : bool :=
  let n := nat_of_ascii c in
  ((9 <=? n)%nat && (n <=? 13)%nat) || ((28 <=? n)%nat && (n <=? 32)%nat).

Definition is_digit (c : ascii) : bool :=
  let n := nat_of_ascii c in (48 <=? n)%nat && (n <=? 57)%nat.

(** [\w] on ASCII: [[a-zA-Z0-9_]] *)
Definition is_word (c : ascii) : bool :=
  let n := nat_of_ascii c in
  is_digit c || ((65 <=? n)%nat && (n <=? 90)%nat)
  || ((97 <=? n)%nat && (n <=? 122)%nat) || Ascii.eqb c "_"%char.

Fixpoint lstrip (s : string) : string :=
  match s with
  | String c s' => if is_space c then lstrip s' else s
  | EmptyString => EmptyString
  end.

Fixpoint rev_str (s : string) : string :=
  match s with
  | EmptyString => EmptyString
  | String c s' => rev_str s' ++ String c EmptyString
  end.

Definition strip (s : string) : string := rev_str (lstrip (rev_str (lstrip s))).

(** [s.split(sep)] for a one-character separator *)
Fixpoint split (sep : ascii) (s : string) : list string :=
  match s with
  | EmptyString => [EmptyString]
  | String c s' =>
      if Ascii.eqb c sep then EmptyString :: split sep s'
      else match split sep s' with
           | w :: ws => String c w :: ws
           | [] => [String c EmptyString]
           end
  end.

(** [s.split(sep, 1)]: [None] when [sep] does not occur *)
Fixpoint split_once (sep : ascii) (s : string) : option (string * string) :=
  match s with
  | EmptyString => None
  | String c s' =>
      if Ascii.eqb c sep then Some (EmptyString, s')
      else match split_once sep s' with
           | Some (a, b) => Some (String c a, b)
           | None => None
           end
  end.

(** The part of [s] before the first [sep] (all of [s] if absent). *)
Definition before (sep : ascii) (s : string) : string :=
  match split_once sep s with Some (a, _) => a | None => s end.

(** [str.replace(old, new)] for a non-empty [old]: left to right,
    non-overlapping; [fuel] is the length of [s]. *)
Fixpoint replace_fuel (fuel : nat) (old new s : string) : string :=
  match fuel with
  | O => s
  | S fuel' =>
      match s with
      | EmptyString => EmptyString
      | String c s' =>
          if startswith old s
          then new ++ replace_fuel fuel' old new
                        (substring (String.length old) (String.length s - String.length old) s)
          else String c (replace_fuel fuel' old new s')
      end
  end.

(** [str.replace("", new)] puts [new] before every character and at the end. *)
Fixpoint interleave (new s : string) : string :=
  match s with
  | EmptyString => new
  | String c s' => new ++ String c (interleave new s')
  end.

Definition replace (old new s : string) : string :=
  match old with
  | EmptyString => interleave new s
  | _ => replace_fuel (String.length s) old new s
  end.

Definition of_nat (n : nat) : string := NilEmpty.string_of_uint (Nat.to_uint n).
Definition of_Z (z : Z) : string := NilEmpty.string_of_int (Z.to_int z).

End PyStr.

(** ** Regular expressions of the [re] module, by Brzozowski derivatives

    The patterns of the analyzer have no back-references or look-arounds,
    so [re.search(p, s)] finds a match exactly when some substring of [s]
    is in the language of [p]; [re_search] decides that. *)
Module Regex.

Inductive regex : Type :=
| RNone
| REps
| RCls (p : ascii -> bool)
| RCat (r1 r2 : regex)
| RAlt (r1 r2 : regex)
| RStar (r : regex).

Fixpoint nullable (r : regex) : bool :=
  match r with
  | RNone | RCls _ => false
  | REps | RStar _ => true
  | RCat r1 r2 => nullable r1 && nullable r2
  | RAlt r1 r2 => nullable r1 || nullable r2
  end.

(** Smart constructors dropping the empty language and [REps] units. *)
Definition cat (r1 r2 : regex) : regex :=
  match r1, r2 with
  | RNone, _ | _, RNone => RNone
  | REps, _ => r2
  | _, _ => RCat r1 r2
  end.

Definition alt (r1 r2 : regex) : regex :=
  match r1, r2 with
  | RNone, _ => r2
  | _, RNone => r1
  | _, _ => RAlt r1 r2
  end.

Fixpoint deriv (c : ascii) (r : regex) : regex :=
  match r with
  | RNone | REps => RNone
  | RCls p => if p c then REps else RNone
  | RCat r1 r2 =>
      if nullable r1 then alt (cat (deriv c r1) r2) (deriv c r2)
      else cat (deriv c r1) r2
  | RAlt r1 r2 => alt (deriv c r1) (deriv c r2)
  | RStar r1 => cat (deriv c r1) (RStar r1)
  end.

Definition is_none (r : regex) : bool :=
  match r with RNone => true | _ => false end.

(** A prefix of [s] matches [r]. *)
Fixpoint match_prefix (r : regex) (s : string) : bool :=
  nullable r ||
  match s with
  | EmptyString => false
  | String c s' => negb (is_none r) && match_prefix (deriv c r) s'
  end.

(** [re.search(r, s) is not None] *)
Fixpoint re_search (r : regex) (s : string) : bool :=
  match_prefix r s ||
  match s with
  | EmptyString => false
  | String _ s' => re_search r s'
  end.

Definition ch (c : ascii) : regex := RCls (Ascii.eqb c).
(** a pattern letter under [re.IGNORECASE] *)
Definition ch_ci (c : ascii) : regex :=
  RCls (fun d => Ascii.eqb (PyStr.lower_char d) (PyStr.lower_char c)).

Fixpoint lit (s : string) : regex :=
  match s with
  | EmptyString => REps
  | String c s' => RCat (ch c) (lit s')
  end.

Fixpoint lit_ci (s : string) : regex :=
  match s with
  | EmptyString => REps
  | String c s' => RCat (ch_ci c) (lit_ci s')
  end.

Definition plus (r : regex) : regex := RCat r (RStar r).
(** [\s] *)
Definition space : regex := RCls PyStr.is_space.
(** [\w] *)
Definition word : regex := RCls PyStr.is_word.
(** the class of single quote, double quote and backquote *)
Definition quote : regex :=
  RCls (fun c => Ascii.eqb c "'"%char || Ascii.eqb c (ascii_of_nat 34) || Ascii.eqb c "`"%char).

End Regex.

(** ** [urllib.parse]: the query component and [parse_qs]

    Strings are read as the bytes of the Python [str]. Not modelled:
    [unquote]'s final UTF-8 decoding with [errors='replace'] (the identity
    when every decoded name and value is ASCII) and [urlsplit]'s
    [ValueError] on malformed bracketed IPv6 hosts (absent when the URL has
    no brackets); the theorems that depend on them assume these cases. *)
Module UrlParse.
Import PyStr.

Definition hex_val (c : ascii) : option nat :=
  let n := nat_of_ascii c in
  if is_digit c then Some (n - 48)%nat
  else if (97 <=? n)%nat && (n <=? 102)%nat then Some (n - 87)%nat
  else if (65 <=? n)%nat && (n <=? 70)%nat then Some (n - 55)%nat
  else None.

(** [%XX] decoding; a [%] not followed by two hex digits stays literal. *)
Fixpoint unquote (s : string) : string :=
  match s with
  | String "%" ((String h1 (String h2 rest)) as tl) =>
      match hex_val h1, hex_val h2 with
      | Some a, Some b => String (ascii_of_nat (16 * a + b)) (unquote rest)
      | _, _ => String "%" (unquote tl)
      end
  | String c s' => String c (unquote s')
  | EmptyString => EmptyString
  end.

Definition plus_to_space (s : string) : string :=
  map_chars (fun c => if Ascii.eqb c "+"%char then " "%char else c) s.

(** [parse_qsl(qs)] with [keep_blank_values=False], [separator='&'] *)
Definition parse_qsl (qs : string) : list (string * string) :=
  flat_map
    (fun name_value =>
       match name_value with
       | EmptyString => []
       | _ =>
           match split_once "=" name_value with
           | None => []
           | Some (_, EmptyString) => []
           | Some (n, v) => [(unquote (plus_to_space n), unquote (plus_to_space v))]
           end
       end)
    (split "&" qs).

(** A Python dict of lists: keys in first-insertion order. *)
Fixpoint dict_append (k v : string) (d : list (string * list string))
  : list (string * list string) :=
  match d with
  | [] => [(k, [v])]
  | (k', vs) :: d' =>
      if String.eqb k k' then (k', (vs ++ [v])%list) :: d'
      else (k', vs) :: dict_append k v d'
  end.

Definition parse_qs (qs : string) : list (string * list string) :=
  fold_left (fun d '(k, v) => dict_append k v d) (parse_qsl qs) [].

Fixpoint remove_chars (bad : ascii -> bool) (s : string) : string :=
  match s with
  | EmptyString => EmptyString
  | String c s' => if bad c then remove_chars bad s' else String c (remove_chars bad s')
  end.

Fixpoint lstrip_c0_space (s : string) : string :=
  match s with
  | String c s' => if (nat_of_ascii c <=? 32)%nat then lstrip_c0_space s' else s
  | EmptyString => EmptyString
  end.

(** [urlparse(url).query]: scheme and netloc hold no [?] or [#], so the
    query is what follows the first [?] before the first [#]. *)
Definition query (url : string) : string :=
  let u := remove_chars (fun c => Ascii.eqb c "009"%char || Ascii.eqb c "013"%char
                                   || Ascii.eqb c "010"%char)
                        (lstrip_c0_space url) in
  match split_once "?" (before "#" u) with
  | Some (_, q) => q
  | None => EmptyString
  end.

End UrlParse.

(** ** The analyzer: state, effects and the methods of [XSSSecurityAnalyzer] *)
Module Analyzer.
Import PyStr Regex.

(** The dict appended by [generate_report]. Its ["findings"] entry is the
    list [self.findings] itself; [r_findings] is that list as it is when the
    dict is appended, which stays its content until a finding is appended
    later. *)
Record report := mk_report {
  r_url : string;
  r_score : Q;
  r_findings : list string;
  r_assessment : string
}.

(** Elements of [self.vulnerabilities]: message strings and the report dict. *)
Inductive vuln : Type :=
| VMsg (m : string)
| VReport (r : report).

(** The value a method returns. *)
Inductive pyval : Type :=
| PyNone
| PyReport (r : report).

(** A dict of form fields, in insertion order. *)
Definition form_data := list (string * string).

(** [session.get(url, params=...)] and [session.post(url, data=...)] *)
Inductive request : Type :=
| Get (target : string) (params : form_data)
| Post (target : string) (data : form_data).

Inductive exc : Type :=
| ClientError (what : string)
| TypeError (msg : string)
| NameError (name : string)
| IndexError
| AttributeError (name : string).

Record response := mk_response { status_code : Z; text : string }.

Inductive outcome : Type :=
| Answer (r : response)
| Raise (e : exc).

(** The HTTP client: its answer to a request, given the requests sent before. *)
Definition client := list request -> request -> outcome.

(** The collaborators of one analyzer: [self.session] (its client and its
    [headers]) and the relative-URL resolution of [urljoin]. *)
Record env := mk_env {
  http_client : client;
  session_headers : string -> option string;
  urljoin_rel : string -> string -> string
}.

(** BeautifulSoup's view of the page: [<input>] tags of a form, forms, and
    the number of [<script>] tags without [src]. *)
Record input_tag := mk_input { in_type : option string; in_name : option string }.

Record form := mk_form {
  f_id : option string;
  f_action : option string;
  f_method : option string;
  f_inputs : list input_tag
}.

Record page := mk_page { raw : string; inline_scripts : nat; forms : list form }.

(** The instance fields, plus the log of requests the session has sent. *)
Record st := mk_st {
  url_attr : option string;
  score : Q;
  findings : list string;
  vulnerabilities : list vuln;
  sent : list request
}.

Definition init_st : st := mk_st None 0%Q [] [] [].

Inductive result (A : Type) : Type :=
| Ok (a : A)
| Exn (e : exc).
Arguments Ok {A} a.
Arguments Exn {A} e.

(** Python's effects: the state changes made before an exception stay. *)
Definition M (A : Type) : Type := st -> result A * st.

Definition ret {A} (a : A) : M A := fun s => (Ok a, s).
Definition bind {A B} (m : M A) (k : A -> M B) : M B :=
  fun s => match m s with
           | (Ok a, s') => k a s'
           | (Exn e, s') => (Exn e, s')
           end.
Definition raise {A} (e : exc) : M A := fun s => (Exn e, s).
Definition get_st : M st := fun s => (Ok s, s).

Notation "x <- m ;; k" := (bind m (fun x => k))
  (at level 61, m at next level, right associativity).
Notation "m ;; k" := (bind m (fun _ : unit => k))
  (at level 61, right associativity).

Definition set_url (u : string) : M unit := fun s =>
  (Ok tt, mk_st (Some u) s.(score) s.(findings) s.(vulnerabilities) s.(sent)).
Definition add_score (q : Q) : M unit := fun s =>
  (Ok tt, mk_st s.(url_attr) (s.(score) + q)%Q s.(findings) s.(vulnerabilities) s.(sent)).
Definition append_finding (m : string) : M unit := fun s =>
  (Ok tt, mk_st s.(url_attr) s.(score) (s.(findings) ++ [m])%list s.(vulnerabilities) s.(sent)).
Definition append_vuln (v : vuln) : M unit := fun s =>
  (Ok tt, mk_st s.(url_attr) s.(score) s.(findings) (s.(vulnerabilities) ++ [v])%list s.(sent)).

(** Sending a request: it is logged, then answered or raised. *)
Definition http (cl : client) (rq : request) : M response := fun s =>
  let s' := mk_st s.(url_attr) s.(score) s.(findings) s.(vulnerabilities)
                  (s.(sent) ++ [rq])%list in
  match cl s.(sent) rq with
  | Answer r => (Ok r, s')
  | Raise e => (Exn e, s')
  end.

Fixpoint for_each {X} (xs : list X) (f : X -> M unit) : M unit :=
  match xs with
  | [] => ret tt
  | x :: xs' => f x ;; for_each xs' f
  end.

(** *** Header checks *)

Definition headers := string -> option string.

(** [if value:] on the result of [headers.get(...)] *)
Definition if_present (o : option string) (present : string -> M unit) (missing : M unit)
  : M unit :=
  match o with
  | Some v => if String.eqb v "" then missing else present v
  | None => missing
  end.

(** [a or b] on two [headers.get(...)] results *)
Definition py_or (a b : option string) : option string :=
  match a with
  | Some v => if String.eqb v "" then b else a
  | None => b
  end.

Definition analyze_csp_directive (directive0 : string) : M unit :=
  let directive := strip directive0 in
  if startswith "default-src" directive then
    if contains "'none'" directive then
      add_score 1 ;; append_finding "CSP uses 'default-src: none' - strict policy"
    else if contains "'self'" directive then
      add_score (1#2) ;; append_finding "CSP uses 'default-src: self' - moderately strict"
    else ret tt
  else if startswith "script-src" directive then
    if contains "'unsafe-inline'" directive || contains "'unsafe-eval'" directive then
      append_finding "CSP allows unsafe scripts - consider removing 'unsafe-inline' and 'unsafe-eval'"
    else
      add_score 1 ;; append_finding "CSP properly restricts script sources"
  else ret tt.

Definition analyze_csp (csp : string) : M unit :=
  for_each (split ";" csp) analyze_csp_directive.

Definition check_content_security_policy (h : headers) : M unit :=
  if_present (h "Content-Security-Policy")
    (fun csp => add_score 1 ;; append_finding "CSP header present - good" ;; analyze_csp csp)
    (append_finding "CSP header missing - consider implementing").

Fixpoint digits_prefix (s : string) : string :=
  match s with
  | String c s' => if is_digit c then String c (digits_prefix s') else EmptyString
  | EmptyString => EmptyString
  end.

Definition drop (n : nat) (s : string) : string := substring n (String.length s - n) s.

(** [re.search(r'max-age=(\d+)', s).group(1)], or [None] *)
Fixpoint search_max_age (s : string) : option string :=
  let g := if startswith "max-age=" s then digits_prefix (drop 8 s) else EmptyString in
  match g with
  | String _ _ => Some g
  | EmptyString =>
      match s with
      | EmptyString => None
      | String _ s' => search_max_age s'
      end
  end.

(** [int(digits)] *)
Fixpoint digits_value_acc (acc : Z) (s : string) : Z :=
  match s with
  | String c s' => digits_value_acc (10 * acc + (Z.of_nat (nat_of_ascii c) - 48))%Z s'
  | EmptyString => acc
  end.
Definition int_of_digits (s : string) : Z := digits_value_acc 0%Z s.

Definition check_strict_transport_security (h : headers) : M unit :=
  if_present (h "Strict-Transport-Security")
    (fun hsts =>
       add_score 1 ;; append_finding "HSTS header present - good" ;;
       (if contains "includeSubDomains" hsts then
          add_score (1#2) ;; append_finding "HSTS includes subdomains" else ret tt) ;;
       (if contains "preload" hsts then
          add_score (1#2) ;; append_finding "HSTS preload ready" else ret tt) ;;
       match search_max_age hsts with
       | Some g =>
           let age := int_of_digits g in
           if (31536000 <=? age)%Z then
             add_score (1#2) ;; append_finding "HSTS max-age is at least one year"
           else
             append_finding ("HSTS max-age is " ++ of_Z age
                             ++ " seconds - consider increasing to at least one year")
       | None => ret tt
       end)
    (append_finding "HSTS header missing - consider implementing").

Definition check_x_frame_options (h : headers) : M unit :=
  if_present (h "X-Frame-Options")
    (fun xfo =>
       add_score 1 ;; append_finding ("X-Frame-Options header present: " ++ xfo) ;;
       if String.eqb (upper xfo) "DENY" || String.eqb (upper xfo) "SAMEORIGIN" then
         add_score (1#2) ;; append_finding "X-Frame-Options properly set to prevent clickjacking"
       else ret tt)
    (append_finding "X-Frame-Options header missing - consider implementing to prevent clickjacking").

Definition check_x_content_type_options (h : headers) : M unit :=
  if_present (h "X-Content-Type-Options")
    (fun xcto =>
       if String.eqb (lower xcto) "nosniff" then
         add_score 1 ;; append_finding "X-Content-Type-Options header properly set to 'nosniff'"
       else
         append_finding ("X-Content-Type-Options header present but not set to 'nosniff': " ++ xcto))
    (append_finding "X-Content-Type-Options header missing - consider implementing to prevent MIME type sniffing").

Definition check_referrer_policy (h : headers) : M unit :=
  if_present (h "Referrer-Policy")
    (fun rp =>
       add_score 1 ;; append_finding ("Referrer-Policy header present: " ++ rp) ;;
       if String.eqb (lower rp) "no-referrer"
          || String.eqb (lower rp) "strict-origin-when-cross-origin" then
         add_score (1#2) ;; append_finding "Referrer-Policy set to a strict value"
       else ret tt)
    (append_finding "Referrer-Policy header missing - consider implementing to control referrer information").

Definition check_feature_policy (h : headers) : M unit :=
  if_present (py_or (h "Feature-Policy") (h "Permissions-Policy"))
    (fun _ => add_score 1 ;; append_finding "Feature-Policy/Permissions-Policy header present - good")
    (append_finding "Feature-Policy/Permissions-Policy header missing - consider implementing to control browser features").

Definition check_headers (h : headers) : M unit :=
  check_content_security_policy h ;;
  check_strict_transport_security h ;;
  check_x_frame_options h ;;
  check_x_content_type_options h ;;
  check_referrer_policy h ;;
  check_feature_policy h.

(** *** Static content scan *)

Definition unsafe_js_patterns : list (regex * string) := [
  (lit_ci "document.write",
   "Usage of document.write detected - potential XSS risk");
  (RCat (lit_ci "eval") (RCat (RStar space) (ch "(")),
   "Usage of eval() detected - potential security risk");
  (RCat (lit_ci "innerHTML") (RCat (RStar space) (ch "=")),
   "Direct manipulation of innerHTML detected - potential XSS risk");
  (RCat (lit_ci "on") (RCat (plus word) (RCat (RStar space) (ch "="))),
   "Inline event handlers detected - consider using addEventListener");
  (RCat (lit_ci "setTimeout")
        (RCat (RStar space) (RCat (ch "(") (RCat (RStar space) quote))),
   "Potentially unsafe use of setTimeout with string argument");
  (RCat (lit_ci "setInterval")
        (RCat (RStar space) (RCat (ch "(") (RCat (RStar space) quote))),
   "Potentially unsafe use of setInterval with string argument")
].

(** [<[^>]*>.*&lt;script&gt;] ([.] does not match a newline) *)
Definition encoding_pattern : regex :=
  RCat (ch "<")
    (RCat (RStar (RCls (fun c => negb (Ascii.eqb c ">"%char))))
       (RCat (ch ">")
          (RCat (RStar (RCls (fun c => negb (Ascii.eqb c "010"%char))))
             (lit "&lt;script&gt;")))).

Definition check_unsafe_pattern (content : string) (pm : regex * string) : M unit :=
  let '(pattern, message) := pm in
  if re_search pattern content then
    append_finding message ;; add_score (-1)
  else ret tt.

Definition analyze_content (p : page) : M unit :=
  (match p.(inline_scripts) with
   | O => ret tt
   | n => append_finding ("Inline scripts detected (" ++ of_nat n
                          ++ ") - consider moving to external files") ;;
          add_score (- inject_Z (Z.of_nat n))
   end) ;;
  for_each unsafe_js_patterns (check_unsafe_pattern p.(raw)) ;;
  (if re_search encoding_pattern p.(raw) then
     add_score 1 ;; append_finding "Evidence of HTML encoding in output - good practice"
   else ret tt).

(** *** CSRF check of forms *)

(** [{'type': 'hidden', 'name': re.compile(r'csrf', re.I)}] *)
Definition is_csrf_input (i : input_tag) : bool :=
  match i.(in_type), i.(in_name) with
  | Some t, Some n => String.eqb t "hidden" && re_search (lit_ci "csrf") n
  | _, _ => false
  end.

Definition attr_or (o : option string) (default : string) : string :=
  match o with Some v => v | None => default end.

Definition check_forms (p : page) : M unit :=
  for_each p.(forms)
    (fun f => if existsb is_csrf_input f.(f_inputs) then ret tt
              else append_finding ("Form " ++ attr_or f.(f_id) "unknown"
                                   ++ " lacks CSRF token - potential XSS risk")).

(** *** Reflected XSS probing *)

Definition generate_payloads : list string := [
  "<script>alert('XSS')</script>";
  "javascript:alert('XSS')";
  "<img src=x onerror=alert('XSS')>";
  "<svg onload=alert('XSS')>";
  "'-alert('XSS')-'"
].

(** One iteration of the inner URL-parameter loop. *)
Definition probe_param (cl : client) (url param value0 payload : string) : M unit :=
  let test_url := replace (param ++ "=" ++ value0) (param ++ "=" ++ payload) url in
  response <- http cl (Get test_url []) ;;
  if contains payload response.(text) then
    append_vuln (VMsg ("Reflected XSS found in URL parameter " ++ param ++ " at " ++ url))
  else ret tt.

Definition check_url_params (cl : client) (url : string) (payloads : list string) : M unit :=
  for_each (UrlParse.parse_qs (UrlParse.query url))
    (fun '(param, values) =>
       match values with
       | value0 :: _ => for_each payloads (probe_param cl url param value0)
       | [] => raise IndexError
       end).

(** [urljoin(base, url)]: its two guards, then the collaborator's resolution. *)
Definition urljoin (e : env) (base u : string) : string :=
  if String.eqb base "" then u
  else if String.eqb u "" then base
  else e.(urljoin_rel) base u.

(** [d[k] = v] on a dict in insertion order *)
Fixpoint dict_set (k v : string) (d : form_data) : form_data :=
  match d with
  | [] => [(k, v)]
  | (k', v') :: d' => if String.eqb k k' then (k', v) :: d' else (k', v') :: dict_set k v d'
  end.

(** [{input.get('name'): payload for input in form.find_all('input') if input.get('name')}] *)
Definition form_fields (f : form) (payload : string) : form_data :=
  fold_left (fun d i => match i.(in_name) with
                        | Some n => if String.eqb n "" then d else dict_set n payload d
                        | None => d
                        end) f.(f_inputs) [].

(** The [for payload in payloads] loop of [check_form_xss]; it returns the
    loop variables [payload] and [response_text] as the loop leaves them. *)
Fixpoint submit_payloads (cl : client) (action method : string) (f : form)
    (payloads : list string) (last : option (string * string))
  : M (option (string * string)) :=
  match payloads with
  | [] => ret last
  | payload :: rest =>
      let data := form_fields f payload in
      response <- (if String.eqb method "post" then http cl (Post action data)
                   else http cl (Get action data)) ;;
      submit_payloads cl action method f rest (Some (payload, response.(text)))
  end.

Definition check_form_xss (e : env) (url : string) (f : form) (payloads : list string)
  : M pyval :=
  let action := urljoin e url (attr_or f.(f_action) "") in
  let method := lower (attr_or f.(f_method) "get") in
  last <- submit_payloads e.(http_client) action method f payloads None ;;
  match last with
  | None => raise (NameError "payload")
  | Some (payload, response_text) =>
      if contains payload response_text then
        append_vuln (VMsg ("Reflected XSS ound in form at " ++ url)) ;; ret PyNone
      else ret PyNone
  end.

(** [await v]: a [None] is not awaitable. *)
Definition await (v : pyval) : M unit :=
  match v with
  | PyNone => raise (TypeError "object NoneType can't be used in 'await' expression")
  | PyReport _ => raise (TypeError "object dict can't be used in 'await' expression")
  end.

Definition check_reflected_xss (e : env) (url : string) (p : page) : M unit :=
  let payloads := generate_payloads in
  check_url_params e.(http_client) url payloads ;;
  for_each p.(forms) (fun f => v <- check_form_xss e url f payloads ;; await v).

(** *** Report and entry point *)

Definition overall_assessment (s : Q) : string :=
  let a := "Weak XSS protection - improvements recommended" in
  if Qle_bool 2 s then "Good XSS protection measures in place"
  else if Qeq_bool s 1 then "Some XSS protection, but improvements needed"
  else a.

Definition generate_report : M pyval :=
  s <- get_st ;;
  match s.(url_attr) with
  | None => raise (AttributeError "url")
  | Some u =>
      append_vuln (VReport (mk_report u s.(score) s.(findings)
                                      (overall_assessment s.(score)))) ;;
      ret PyNone
  end.

Definition analyze (e : env) (url : string) (p : page) : M pyval :=
  set_url url ;;
  check_headers e.(session_headers) ;;
  analyze_content p ;;
  check_forms p ;;
  check_reflected_xss e url p ;;
  generate_report.

End Analyzer.

(** ** Test doubles and the spec-side reading of the URL-parameter phase *)
Module Doubles.
Import PyStr Analyzer.

(** A mock client that echoes every query-parameter value (and every form
    field) of the request it receives into the response body. *)
Definition echo_client : client := fun _ rq =>
  match rq with
  | Get u ps =>
      Answer (mk_response 200
        (String.concat " " (concat (map snd (UrlParse.parse_qs (UrlParse.query u)))
                            ++ map snd ps)%list))
  | Post _ d => Answer (mk_response 200 (String.concat " " (map snd d)))
  end.

(** A mock client that never echoes and raises on its 2nd and 4th attempts. *)
Definition flaky_client : client := fun h _ =>
  if Nat.eqb (List.length h) 1 || Nat.eqb (List.length h) 3
  then Raise (ClientError "connection timed out")
  else Answer (mk_response 200 "").

(** A mock client whose answers are 404 pages echoing the query values. *)
Definition not_found_echo_client : client := fun h rq =>
  match echo_client h rq with
  | Answer r => Answer (mk_response 404 r.(text))
  | Raise e => Raise e
  end.

(** [urljoin] of an absolute action URL returns it. *)
Definition env_of (cl : client) : env :=
  mk_env cl (fun _ => None) (fun _ u => u).

Definition no_forms (content : string) : page := mk_page content 0 [].

Definition text_form (action : string) : form :=
  mk_form None (Some action) None [mk_input (Some "text") (Some "q")].

Definition two_form_page : page :=
  mk_page "" 0 [text_form "https://x/a"; text_form "https://x/b"].

(** The test URL of a (parameter, payload) pair: the text [name=value]
    replaced by [name=payload] in the target URL. *)
Definition test_url (url param value0 payload : string) : string :=
  replace (param ++ "=" ++ value0) (param ++ "=" ++ payload) url.




(** The first request of [rqs] that the client raises on, with its index,
    when they are sent in order after [hist]. *)
Fixpoint first_raise (cl : client) (hist rqs : list request) : option (exc * nat) :=
  match rqs with
  | [] => None
  | rq :: rest =>
      match cl hist rq with
      | Raise e => Some (e, 0%nat)
      | Answer _ =>
          match first_raise cl (hist ++ [rq])%list rest with
          | Some (e, i) => Some (e, S i)
          | None => None
          end
      end
  end.

(** The same client with every status code replaced by 200. *)
Definition status_200 (cl : client) : client := fun h rq =>
  match cl h rq with
  | Answer r => Answer (mk_response 200 r.(text))
  | Raise e => Raise e
  end.



Definition with_client (e : env) (cl : client) : env :=
  mk_env cl e.(session_headers) e.(urljoin_rel).

End Doubles.

(** * Properties *)
Module Proofs.
Import PyStr Regex Analyzer Doubles.

Definition good := "Good XSS protection measures in place".
Definition some_protection := "Some XSS protection, but improvements needed".
Definition weak := "Weak XSS protection - improvements recommended".

(** ** The inputs on which the model and Python agree exactly *)

(** Every character is ASCII (below 128). On such text Python's [re] (with
    its Unicode [\s], [\w], [\d] and [re.IGNORECASE] folding), [str.lower]
    and [int] agree with the ASCII versions of [PyStr] and [Regex]. *)
Fixpoint ascii_only (s : string) : bool :=
  match s with
  | String c s' => (nat_of_ascii c <? 128)%nat && ascii_only s'
  | EmptyString => true
  end.




(** The [name] of an input, when it has one, is ASCII. *)
Definition name_ascii (i : input_tag) : bool :=
  match in_name i with Some n => ascii_only n | None => true end.

(** [P] holds of the value and the final state whenever [m] returns. *)
Definition on_return {A} (P : A -> st -> Prop) (m : M A) : Prop :=
  forall s, match m s with
            | (Ok v, s') => P v s'
            | (Exn _, _) => True
            end.

Definition quiet_env : env := env_of echo_client.


Definition missing_header_findings : list string := [
  "CSP header missing - consider implementing";
  "HSTS header missing - consider implementing";
  "X-Frame-Options header missing - consider implementing to prevent clickjacking";
  "X-Content-Type-Options header missing - consider implementing to prevent MIME type sniffing";
  "Referrer-Policy header missing - consider implementing to control referrer information";
  "Feature-Policy/Permissions-Policy header missing - consider implementing to control browser features"
].

(** The rows of the unsafe-JS table whose pattern occurs in [content]. *)
Definition matching_signatures (content : string) : list (regex * string) :=
  filter (fun pm => re_search (fst pm) content) unsafe_js_patterns.

Definition inline_findings (n : nat) : list string :=
  match n with
  | O => []
  | _ => ["Inline scripts detected (" ++ of_nat n ++ ") - consider moving to external files"]
  end.

Definition encoding_findings (content : string) : list string :=
  if re_search encoding_pattern content
  then ["Evidence of HTML encoding in output - good practice"] else [].

Definition encoding_bonus (content : string) : Q :=
  if re_search encoding_pattern content then 1%Q else 0%Q.

(** Every element [m] appends to [vulnerabilities] satisfies [P], also when
    [m] raises. *)
Definition appends_only {A} (P : vuln -> Prop) (m : M A) : Prop :=
  forall s, exists new,
    vulnerabilities (snd (m s)) = (vulnerabilities s ++ new)%list /\ Forall P new.

(** [m] only appends to the request log, and when the client [cl] raises on
    one of the requests [m] sends, that request is the last one sent and its
    exception is the result of [m]. *)
Definition propagates {A} (cl : client) (m : M A) : Prop :=
  forall s, exists new,
    sent (snd (m s)) = (sent s ++ new)%list /\
    forall ex i, first_raise cl (sent s) new = Some (ex, i) ->
                 fst (m s) = Exn ex /\ S i = List.length new.



(** [m] returns normally and its final state is related to the first by [F]. *)
Definition runs_to (m : M unit) (F : st -> st -> Prop) : Prop :=
  forall s, fst (m s) = Ok tt /\ F s (snd (m s)).

(** The findings [l] are appended and [q] is added to the score. *)
Definition delta (l : list string) (q : Q) (s s' : st) : Prop :=
  findings s' = (findings s ++ l)%list /\ (score s' == score s + q)%Q.



(** [b] is at most [a + h], when there is a bound [h]. *)
Definition upto (hi : option Q) (a b : Q) : Prop :=
  match hi with Some h => (b <= a + h)%Q | None => True end.

Definition oplus (h1 h2 : option Q) : option Q :=
  match h1, h2 with Some a, Some b => Some (a + b)%Q | _, _ => None end.

(** [m] returns normally, only appends findings, leaves the URL, the
    vulnerabilities and the request log alone, and adds to the score at
    least [lo] and, when [hi] is [Some h], at most [h]. *)
Definition scores (lo : Q) (hi : option Q) (m : M unit) : Prop :=
  forall s, fst (m s) = Ok tt /\
    url_attr (snd (m s)) = url_attr s /\
    vulnerabilities (snd (m s)) = vulnerabilities s /\
    sent (snd (m s)) = sent s /\
    (exists l, findings (snd (m s)) = (findings s ++ l)%list) /\
    (score s + lo <= score (snd (m s)))%Q /\ upto hi (score s) (score (snd (m s))).

(** [m] leaves the score, the findings and the URL alone, also when it raises. *)
Definition keeps_score {A} (m : M A) : Prop :=
  forall s, score (snd (m s)) = score s /\ findings (snd (m s)) = findings s /\
            url_attr (snd (m s)) = url_attr s.

(** A header value that Python's [if value:] takes as present. *)
Definition nonempty (o : option string) : bool :=
  match o with Some v => negb (String.eqb v "") | None => false end.

(** Directives joined by [;] into one header value. *)
Fixpoint join_semi (l : list string) : string :=
  match l with
  | [] => ""
  | [d] => d
  | d :: l' => d ++ ";" ++ join_semi l'
  end.

Definition csrf_finding (f : form) : string :=
  "Form " ++ attr_or (f_id f) "unknown" ++ " lacks CSRF token - potential XSS risk".






Definition csp_only (v : string) : headers := fun k =>
  if String.eqb k "Content-Security-Policy" then Some v else None.


(** Every character of [s] is a digit. *)
Fixpoint all_digits (s : string) : bool :=
  match s with
  | String c s' => is_digit c && all_digits s'
  | EmptyString => true
  end.

Definition starts_with_digit (s : string) : bool :=
  match s with String c _ => is_digit c | EmptyString => false end.



(** ** Generic facts about the effect monad *)


Lemma bind_exn {A B} (m : M A) (k : A -> M B) s ex s1 :
  m s = (Exn ex, s1) -> bind m k s = (Exn ex, s1).
Proof. intros H. unfold bind. now rewrite H. Qed.


Lemma on_return_bind {A B} (P : B -> st -> Prop) (m : M A) (k : A -> M B) :
  (forall a, on_return P (k a)) -> on_return P (bind m k).
Proof.
  intros Hk s. unfold bind. destruct (m s) as [[a|ex] s1]; [apply Hk|exact I].
Qed.

(** ** Findings of the header checks *)



















(** C8: when none of the seven header names is present, [check_headers]
    returns normally, leaves the score unchanged and appends exactly the six
    "missing" advisories, one per header family. *)
Theorem C8_no_security_headers (h : headers) (s : st)
  (Hcsp : h "Content-Security-Policy" = None)
  (Hhsts : h "Strict-Transport-Security" = None)
  (Hxfo : h "X-Frame-Options" = None)
  (Hxcto : h "X-Content-Type-Options" = None)
  (Hrp : h "Referrer-Policy" = None)
  (Hfp : h "Feature-Policy" = None)
  (Hpp : h "Permissions-Policy" = None) :
  check_headers h s =
  (Ok tt, mk_st (url_attr s) (score s) (findings s ++ missing_header_findings)%list
                (vulnerabilities s) (sent s)).
Proof.
  unfold check_headers, check_content_security_policy, check_strict_transport_security,
    check_x_frame_options, check_x_content_type_options, check_referrer_policy,
    check_feature_policy.
  rewrite Hcsp, Hhsts, Hxfo, Hxcto, Hrp, Hfp, Hpp.
  destruct s as [u sc fi vu se]. unfold py_or, if_present, append_finding, missing_header_findings. cbn.
  now rewrite <- !app_assoc.
Qed.

Lemma C8_no_security_headers_witness :
  check_headers (fun _ => None) init_st =
  (Ok tt, mk_st None 0%Q missing_header_findings [] []).
Proof.
  exact (C8_no_security_headers (fun _ => None) init_st
           eq_refl eq_refl eq_refl eq_refl eq_refl eq_refl eq_refl).
Defined.

(** ** Static content scan *)






Lemma runs_seq_delta m1 m2 l1 l2 q1 q2 :
  runs_to m1 (delta l1 q1) -> runs_to m2 (delta l2 q2) ->
  runs_to (m1 ;; m2) (delta (l1 ++ l2) (q1 + q2)).
Proof.
  intros H1 H2 s. unfold bind.
  destruct (H1 s) as [Hr1 [Hf1 Hs1]].
  destruct (m1 s) as [r1 s1]. simpl in Hr1, Hf1, Hs1. subst r1.
  destruct (H2 s1) as [Hr2 [Hf2 Hs2]].
  split; [exact Hr2|]. split.
  - rewrite Hf2, Hf1. now rewrite <- app_assoc.
  - rewrite Hs2, Hs1. ring.
Qed.

Lemma runs_delta_ext m l l' q q' :
  runs_to m (delta l q) -> l = l' -> (q == q')%Q -> runs_to m (delta l' q').
Proof.
  intros H <- Hq s. destruct (H s) as [Hr [Hf Hs]].
  split; [exact Hr|]. split; [exact Hf|]. rewrite Hs, Hq. reflexivity.
Qed.

Lemma runs_ret : runs_to (ret tt) (delta [] 0).
Proof. intros s. split; [reflexivity|]. split; [symmetry; apply app_nil_r | simpl; ring]. Qed.

Lemma unsafe_loop_effect tbl content :
  runs_to (for_each tbl (check_unsafe_pattern content))
    (delta (map snd (filter (fun pm => re_search (fst pm) content) tbl))
           (- inject_Z (Z.of_nat (List.length
                (filter (fun pm => re_search (fst pm) content) tbl))))).
Proof.
  induction tbl as [|[pat msg] tbl IH]; cbn [for_each filter].
  - eapply runs_delta_ext; [apply runs_ret | reflexivity | simpl; ring].
  - assert (Hstep : runs_to (check_unsafe_pattern content (pat, msg))
                      (delta (if re_search pat content then [msg] else [])
                             (if re_search pat content then -1 else 0))).
    { unfold check_unsafe_pattern. destruct (re_search pat content).
      - intros s. split; [reflexivity|]. split; [reflexivity|]. simpl. ring.
      - apply runs_ret. }
    eapply runs_delta_ext; [apply (runs_seq_delta _ _ _ _ _ _ Hstep IH)| |].
    + cbn [fst]. destruct (re_search pat content); reflexivity.
    + cbn [fst]. destruct (re_search pat content); cbn [List.length].
      * rewrite Nat2Z.inj_succ, <- Z.add_1_r, inject_Z_plus. ring.
      * ring.
Qed.

Lemma analyze_content_effect content n fs :
  runs_to (analyze_content (mk_page content n fs))
    (delta (inline_findings n ++ map snd (matching_signatures content)
            ++ encoding_findings content)
           (- inject_Z (Z.of_nat n)
            + (- inject_Z (Z.of_nat (List.length (matching_signatures content)))
               + encoding_bonus content))).
Proof.
  unfold analyze_content. cbn [raw inline_scripts].
  apply runs_seq_delta; [|apply runs_seq_delta].
  - destruct n as [|n']; intros s; simpl.
    + split; [reflexivity|]. split; [symmetry; apply app_nil_r|]. simpl. ring.
    + split; [reflexivity|]. split; [reflexivity|]. simpl. ring.
  - apply unsafe_loop_effect.
  - intros s. unfold encoding_findings, encoding_bonus.
    destruct (re_search encoding_pattern content); simpl.
    + split; [reflexivity|]. split; reflexivity.
    + split; [reflexivity|]. split; [symmetry; apply app_nil_r|]. simpl. ring.
Qed.






(** ** The URL-parameter and form phases with a client that never raises *)
















(** C2 (code bug): [check_reflected_xss] awaits the [None] returned by the
    synchronous [check_form_xss], which raises [TypeError] right after the
    first form: on a page with two forms the five payloads go to the first
    form only (with its single last-payload check), the second form is never
    submitted, and the exception escapes. *)
Theorem C2_second_form_never_probed :
  let '(r, s') := check_reflected_xss (env_of echo_client) "https://x/" two_form_page init_st in
  r = Exn (TypeError "object NoneType can't be used in 'await' expression") /\
  sent s' = map (fun p => Get "https://x/a" [("q", p)]) generate_payloads /\
  vulnerabilities s' = [VMsg "Reflected XSS ound in form at https://x/"].
Proof. vm_compute. repeat split. Qed.

(** *** Which vulnerabilities the probing engine appends *)

Lemma appends_nochange {A} P (m : M A) :
  (forall s, vulnerabilities (snd (m s)) = vulnerabilities s) -> appends_only P m.
Proof. intros H s. exists []. split; [rewrite H, app_nil_r; reflexivity | constructor]. Qed.








(** *** Failures of the HTTP client *)

Lemma first_raise_app cl h l1 l2 :
  first_raise cl h (l1 ++ l2) =
  match first_raise cl h l1 with
  | Some p => Some p
  | None => match first_raise cl (h ++ l1) l2 with
            | Some (e, i) => Some (e, (List.length l1 + i)%nat)
            | None => None
            end
  end.
Proof.
  revert h. induction l1 as [|rq l1 IH]; intros h; simpl.
  - rewrite app_nil_r. destruct (first_raise cl h l2) as [[e i]|]; reflexivity.
  - destruct (cl h rq); [|reflexivity]. rewrite IH, <- app_assoc. simpl.
    destruct (first_raise cl (h ++ [rq]) l1) as [[e i]|]; [reflexivity|].
    destruct (first_raise cl (h ++ rq :: l1) l2) as [[e i]|]; reflexivity.
Qed.

Lemma propagates_nosend {A} cl (m : M A) :
  (forall s, sent (snd (m s)) = sent s) -> propagates cl m.
Proof.
  intros H s. exists []. split; [rewrite H, app_nil_r; reflexivity|].
  intros ex i F. simpl in F. discriminate F.
Qed.

Lemma propagates_http cl rq : propagates cl (http cl rq).
Proof.
  intros s. exists [rq]. unfold http. split.
  - destruct (cl (sent s) rq); reflexivity.
  - intros ex i F. simpl in F. destruct (cl (sent s) rq) as [r|e]; [discriminate F|].
    injection F as <- <-. split; reflexivity.
Qed.

Lemma propagates_bind {A B} cl (m : M A) (k : A -> M B) :
  propagates cl m -> (forall a, propagates cl (k a)) -> propagates cl (bind m k).
Proof.
  intros Hm Hk s. destruct (Hm s) as [n1 [E1 R1]]. unfold bind.
  destruct (m s) as [[a|ex] s1]; simpl in *.
  - destruct (Hk a s1) as [n2 [E2 R2]]. exists (n1 ++ n2)%list. split.
    + rewrite E2, E1, <- app_assoc. reflexivity.
    + intros ex i H. rewrite first_raise_app in H.
      destruct (first_raise cl (sent s) n1) as [[ex1 i1]|] eqn:F1.
      * destruct (R1 _ _ eq_refl) as [C _]. discriminate C.
      * rewrite <- E1 in H.
        destruct (first_raise cl (sent s1) n2) as [[ex2 i2]|] eqn:F2; [|discriminate H].
        injection H as <- <-. destruct (R2 _ _ eq_refl) as [R2a R2b].
        split; [exact R2a|]. rewrite length_app. lia.
  - exists n1. split; [exact E1|]. intros ex' i H.
    destruct (R1 _ _ H) as [C L]. injection C as <-. split; [reflexivity | exact L].
Qed.

Lemma propagates_for_each {X} cl (xs : list X) f :
  (forall x, propagates cl (f x)) -> propagates cl (for_each xs f).
Proof.
  intros H. induction xs as [|x xs IH]; simpl.
  - apply propagates_nosend. reflexivity.
  - apply propagates_bind; [apply H | intros _; exact IH].
Qed.

Lemma propagates_submit_payloads cl action method f payloads :
  forall last, propagates cl (submit_payloads cl action method f payloads last).
Proof.
  induction payloads as [|p ps IH]; intros last; simpl.
  - apply propagates_nosend. reflexivity.
  - apply propagates_bind; [destruct (String.eqb method "post"); apply propagates_http|].
    intros r. apply IH.
Qed.

Lemma propagates_check_url_params cl url payloads :
  propagates cl (check_url_params cl url payloads).
Proof.
  unfold check_url_params. apply propagates_for_each. intros [param values].
  destruct values as [|value0 rest].
  - apply propagates_nosend. reflexivity.
  - apply propagates_for_each. intros payload. unfold probe_param.
    apply propagates_bind; [apply propagates_http|]. intros r.
    apply propagates_nosend. intros s. destruct (contains payload (text r)); reflexivity.
Qed.

Lemma propagates_check_form_xss e url f payloads :
  propagates (http_client e) (check_form_xss e url f payloads).
Proof.
  unfold check_form_xss. apply propagates_bind; [apply propagates_submit_payloads|].
  intros [[payload response_text]|]; apply propagates_nosend; intros s;
    [destruct (contains payload response_text)|]; reflexivity.
Qed.

Lemma bind_ext {A B} (m m' : M A) (k k' : A -> M B) :
  (forall s, m s = m' s) -> (forall a s, k a s = k' a s) ->
  forall s, bind m k s = bind m' k' s.
Proof.
  intros Hm Hk s. unfold bind. rewrite Hm.
  destruct (m' s) as [[a|ex] s1]; [apply Hk | reflexivity].
Qed.

Lemma for_each_ext {X} (xs : list X) f g :
  (forall x s, f x s = g x s) -> forall s, for_each xs f s = for_each xs g s.
Proof.
  intros H. induction xs as [|x xs IH]; intros s; simpl; [reflexivity|].
  apply bind_ext; [apply H | intros _; exact IH].
Qed.

Lemma probe_param_status cl url param value0 payload s :
  probe_param (status_200 cl) url param value0 payload s =
  probe_param cl url param value0 payload s.
Proof.
  unfold probe_param, bind, http, status_200. destruct (cl _ _); reflexivity.
Qed.

Lemma submit_payloads_status cl action method f payloads :
  forall last s,
  submit_payloads (status_200 cl) action method f payloads last s =
  submit_payloads cl action method f payloads last s.
Proof.
  induction payloads as [|p ps IH]; intros last s; [reflexivity|].
  cbn [submit_payloads]. unfold bind at 1 2, http, status_200.
  destruct (String.eqb method "post"); destruct (cl _ _); try reflexivity; apply IH.
Qed.

Lemma check_url_params_status cl url payloads s :
  check_url_params (status_200 cl) url payloads s = check_url_params cl url payloads s.
Proof.
  unfold check_url_params. apply for_each_ext. intros [param values] s'.
  destruct values as [|value0 rest]; [reflexivity|].
  apply for_each_ext. intros payload s''. apply probe_param_status.
Qed.

Lemma check_form_xss_status e url f payloads s :
  check_form_xss (with_client e (status_200 (http_client e))) url f payloads s =
  check_form_xss e url f payloads s.
Proof.
  unfold check_form_xss. apply bind_ext; [apply submit_payloads_status | reflexivity].
Qed.

(** C3 (counterexample): a client raising on the 2nd and 4th request makes
    the exception escape the probe after the second request, the three
    remaining payloads unprobed; and a client answering 404 with the echo
    still yields the five URL-parameter records. *)
Lemma C3_client_error_aborts_probe :
  (let '(r, s') := check_reflected_xss (env_of flaky_client) "https://x/test?q=1"
                                       (no_forms "") init_st in
   r = Exn (ClientError "connection timed out") /\
   List.length (sent s') = 2%nat /\ vulnerabilities s' = []) /\
  vulnerabilities (snd (check_reflected_xss (env_of not_found_echo_client)
                          "https://x/test?q=1" (no_forms "") init_st)) =
  repeat (VMsg "Reflected XSS found in URL parameter q at https://x/test?q=1") 5.
Proof. vm_compute. repeat split. Qed.

(** C3 (amended): the probing engine has no failure handling. Whenever the
    client raises on a request, that request is the last one sent and its
    exception is the outcome of the whole probe; and the status code of the
    responses is never consulted: answering every request with status 200
    and the same body changes nothing. *)
Theorem C3_client_failures_propagate (e : env) (url : string) (p : page) :
  propagates (http_client e) (check_reflected_xss e url p) /\
  (forall s, check_reflected_xss (with_client e (status_200 (http_client e))) url p s =
             check_reflected_xss e url p s).
Proof.
  unfold check_reflected_xss. split.
  - apply propagates_bind; [apply propagates_check_url_params|]. intros _.
    apply propagates_for_each. intros f.
    apply propagates_bind; [apply propagates_check_form_xss|]. intros v.
    apply propagates_nosend. intros s. destruct v; reflexivity.
  - intros s. apply bind_ext; [apply check_url_params_status|]. intros _ s'.
    apply for_each_ext. intros f s''.
    apply bind_ext; [apply check_form_xss_status | reflexivity].
Qed.



(** ** Report verdict *)

Lemma overall_assessment_good s : overall_assessment s = good <-> (2 <= s)%Q.
Proof.
  unfold overall_assessment, good. split.
  - destruct (Qle_bool 2 s) eqn:E.
    + intros _. now apply Qle_bool_iff.
    + destruct (Qeq_bool s 1); discriminate.
  - intros H. apply Qle_bool_iff in H. now rewrite H.
Qed.

Lemma overall_assessment_some s :
  overall_assessment s = some_protection <-> (s == 1)%Q.
Proof.
  unfold overall_assessment, some_protection. split.
  - destruct (Qle_bool 2 s); [discriminate|].
    destruct (Qeq_bool s 1) eqn:E; [|discriminate].
    intros _. now apply Qeq_bool_iff.
  - intros H. pose proof H as H'. apply Qeq_bool_iff in H'. rewrite H'.
    destruct (Qle_bool 2 s) eqn:E; [|reflexivity].
    apply Qle_bool_iff in E. exfalso.
    destruct s as [a b]. unfold Qle, Qeq in *. simpl in *. lia.
Qed.

(** C4 (counterexample): a score of 1.5 is below 2 and is not 1, so the
    verdict is the weak one, not "Good XSS protection measures in place". *)
Lemma C4_score_one_and_a_half_not_good :
  overall_assessment (3#2) = weak /\ overall_assessment (3#2) <> good.
Proof. split; [reflexivity | discriminate]. Qed.

(** C4 (amended): the report verdict is [overall_assessment] of the final
    score; 1.0 gives the "Some" verdict, 2.0 gives "Good", 1.5, 0.5 and -3
    give "Weak"; "Good" exactly when the score is at least 2, "Some" exactly
    when it equals 1, "Weak" otherwise. *)
Theorem C4_verdict_boundaries :
  overall_assessment 1 = some_protection /\
  overall_assessment (10#10) = some_protection /\
  overall_assessment 2 = good /\
  overall_assessment (3#2) = weak /\
  overall_assessment (1#2) = weak /\
  overall_assessment (-3) = weak /\
  (forall s, (overall_assessment s = good <-> (2 <= s)%Q) /\
             (overall_assessment s = some_protection <-> (s == 1)%Q) /\
             (overall_assessment s = weak <-> ~ (2 <= s)%Q /\ ~ (s == 1)%Q)) /\
  (forall s, match url_attr s with
             | Some u =>
                 generate_report s =
                 (Ok PyNone,
                  mk_st (url_attr s) (score s) (findings s)
                    (vulnerabilities s
                     ++ [VReport (mk_report u (score s) (findings s)
                                   (overall_assessment (score s)))])%list
                    (sent s))
             | None => True
             end).
Proof.
  split; [reflexivity|]. split; [reflexivity|]. split; [reflexivity|].
  split; [reflexivity|]. split; [reflexivity|]. split; [reflexivity|].
  split.
  - intros s. split; [apply overall_assessment_good|].
    split; [apply overall_assessment_some|].
    split.
    + intros Hw. split.
      * intros Hg. apply overall_assessment_good in Hg. rewrite Hg in Hw.
        discriminate.
      * intros Hs. apply overall_assessment_some in Hs. rewrite Hs in Hw.
        discriminate.
    + intros [Hg Hs]. unfold overall_assessment, weak.
      destruct (Qle_bool 2 s) eqn:E1.
      * apply Qle_bool_iff in E1. contradiction.
      * destruct (Qeq_bool s 1) eqn:E2; [|reflexivity].
        apply Qeq_bool_iff in E2. contradiction.
  - intros s. destruct s as [[u|] sc fi vu se]; reflexivity.
Qed.

(** ** The result of [analyze] *)

(** C5 (code bug): [analyze] ends with [return self.generate_report()], but
    [generate_report] has no [return]: whenever [analyze] completes it
    returns [None], while the report dict is the last element of
    [vulnerabilities]. On the page "" of https://x/ it returns [None]. *)
Theorem C5_analyze_returns_none :
  (forall e url p s,
     match analyze e url p s with
     | (Ok v, s') =>
         v = PyNone /\
         exists r vs, vulnerabilities s' = (vs ++ [VReport r])%list
     | (Exn _, _) => True
     end) /\
  (let '(r, s') := analyze quiet_env "https://x/" (no_forms "") init_st in
   r = Ok PyNone /\
   vulnerabilities s' =
   [VReport (mk_report "https://x/" 0%Q (findings s') weak)]).
Proof.
  split.
  - intros e url p.
    assert (Hg : on_return (fun v s' => v = PyNone /\
                   exists r vs, vulnerabilities s' = (vs ++ [VReport r])%list)
                 generate_report).
    { intros s. unfold generate_report, bind, get_st.
      destruct (url_attr s); [|exact I].
      simpl. split; [reflexivity|]. eexists _, _. reflexivity. }
    enough (H : on_return (fun v s' => v = PyNone /\
                   exists r vs, vulnerabilities s' = (vs ++ [VReport r])%list)
                 (analyze e url p)) by exact H.
    unfold analyze.
    do 5 (apply on_return_bind; intros []). exact Hg.
  - vm_compute. split; reflexivity.
Qed.

(** ** Further properties of the analyzer *)

(** *** Score bounds *)

Lemma scores_ret : scores 0 (Some 0) (ret tt).
Proof.
  intros s. repeat split; try reflexivity.
  - exists []. symmetry. apply app_nil_r.
  - simpl. lra.
  - simpl. lra.
Qed.

Lemma scores_add q : scores q (Some q) (add_score q).
Proof.
  intros s. repeat split; try reflexivity.
  - exists []. symmetry. apply app_nil_r.
  - simpl. lra.
  - simpl. lra.
Qed.

Lemma scores_finding msg : scores 0 (Some 0) (append_finding msg).
Proof.
  intros s. repeat split; try reflexivity.
  - exists [msg]. reflexivity.
  - simpl. lra.
  - simpl. lra.
Qed.

Lemma scores_seq lo1 hi1 lo2 hi2 m1 m2 :
  scores lo1 hi1 m1 -> scores lo2 hi2 m2 -> scores (lo1 + lo2) (oplus hi1 hi2) (m1 ;; m2).
Proof.
  intros H1 H2 s. unfold bind.
  destruct (H1 s) as (R1 & U1 & V1 & S1 & [l1 F1] & L1 & H1').
  destruct (m1 s) as [r1 s1]. simpl in *. subst r1.
  destruct (H2 s1) as (R2 & U2 & V2 & S2 & [l2 F2] & L2 & H2').
  repeat split.
  - exact R2.
  - congruence.
  - congruence.
  - congruence.
  - exists (l1 ++ l2)%list. rewrite F2, F1, app_assoc. reflexivity.
  - lra.
  - destruct hi1 as [h1|], hi2 as [h2|]; simpl in *; try exact I. lra.
Qed.

Lemma scores_weaken lo hi lo' hi' m :
  scores lo hi m -> (lo' <= lo)%Q ->
  match hi', hi with
  | None, _ => True
  | Some h', Some h => (h <= h')%Q
  | Some _, None => False
  end -> scores lo' hi' m.
Proof.
  intros H Hlo Hhi s. destruct (H s) as (R & U & V & S & F & L & Up).
  repeat split; try assumption.
  - lra.
  - destruct hi' as [h'|]; [|exact I]. destruct hi as [h|]; [|contradiction].
    simpl in *. lra.
Qed.

Lemma scores_if_present lo hi o present missing :
  (forall v, scores lo hi (present v)) -> scores lo hi missing ->
  scores lo hi (if_present o present missing).
Proof.
  intros Hp Hm. destruct o as [v|]; simpl; [destruct (String.eqb v "")|]; auto.
Qed.

Lemma scores_for_each {X} (xs : list X) f :
  (forall x, scores 0 None (f x)) -> scores 0 None (for_each xs f).
Proof.
  intros H. induction xs as [|x xs IH]; simpl.
  - eapply scores_weaken; [apply scores_ret | lra | exact I].
  - eapply scores_weaken; [apply scores_seq; [apply H | apply IH] | lra | exact I].
Qed.

Ltac scores_step :=
  match goal with
  | |- scores _ _ (add_score _ ;; _) => apply scores_seq; [apply scores_add|]
  | |- scores _ _ (append_finding _ ;; _) => apply scores_seq; [apply scores_finding|]
  | |- scores _ _ (add_score _) => apply scores_add
  | |- scores _ _ (append_finding _) => apply scores_finding
  | |- scores _ _ (ret tt) => apply scores_ret
  end.

Lemma scores_csp_directive d : scores 0 (Some 1) (analyze_csp_directive d).
Proof.
  unfold analyze_csp_directive.
  destruct (startswith "default-src" _); [destruct (contains "'none'" _); [|destruct (contains "'self'" _)]|
    destruct (startswith "script-src" _); [destruct (_ || _)|]].
  all: first
    [ eapply scores_weaken; [apply scores_seq; [apply scores_add | apply scores_finding] | |]; simpl; lra
    | eapply scores_weaken; [apply scores_finding | |]; simpl; lra
    | eapply scores_weaken; [apply scores_ret | |]; simpl; lra ].
Qed.

Lemma scores_check_csp h : scores 0 None (check_content_security_policy h).
Proof.
  unfold check_content_security_policy. apply scores_if_present.
  - intros v. eapply scores_weaken.
    + apply scores_seq; [apply scores_add|]. apply scores_seq; [apply scores_finding|].
      apply scores_for_each. intros d.
      eapply scores_weaken; [apply scores_csp_directive | lra | exact I].
    + lra.
    + exact I.
  - eapply scores_weaken; [apply scores_finding | lra | exact I].
Qed.

Lemma scores_cond (b : bool) lo hi m1 m2 :
  scores lo hi m1 -> scores lo hi m2 -> scores lo hi (if b then m1 else m2).
Proof. destruct b; auto. Qed.

Lemma scores_check_hsts h : scores 0 (Some (5#2)) (check_strict_transport_security h).
Proof.
  unfold check_strict_transport_security. apply scores_if_present.
  - intros v.
    apply (scores_weaken (1 + (0 + (0 + (0 + 0))))
             (oplus (Some 1) (oplus (Some 0) (oplus (Some (1#2))
                (oplus (Some (1#2)) (Some (1#2))))))).
    + apply scores_seq; [apply scores_add|]. apply scores_seq; [apply scores_finding|].
      apply (scores_seq 0 (Some (1#2))).
      { apply scores_cond.
        - eapply scores_weaken; [apply scores_seq; [apply scores_add | apply scores_finding]| |];
            simpl; lra.
        - eapply scores_weaken; [apply scores_ret | |]; simpl; lra. }
      apply (scores_seq 0 (Some (1#2))).
      { apply scores_cond.
        - eapply scores_weaken; [apply scores_seq; [apply scores_add | apply scores_finding]| |];
            simpl; lra.
        - eapply scores_weaken; [apply scores_ret | |]; simpl; lra. }
      destruct (search_max_age v) as [g|].
      * apply scores_cond.
        -- eapply scores_weaken; [apply scores_seq; [apply scores_add | apply scores_finding]| |];
             simpl; lra.
        -- eapply scores_weaken; [apply scores_finding | |]; simpl; lra.
      * eapply scores_weaken; [apply scores_ret | |]; simpl; lra.
    + simpl. lra.
    + simpl. lra.
  - eapply scores_weaken; [apply scores_finding | |]; simpl; lra.
Qed.

Lemma scores_check_xfo h : scores 0 (Some (3#2)) (check_x_frame_options h).
Proof.
  unfold check_x_frame_options. apply scores_if_present.
  - intros v. eapply scores_weaken.
    + apply scores_seq; [apply scores_add|]. apply scores_seq; [apply scores_finding|].
      apply (scores_cond _ 0 (Some (1#2))).
      * eapply scores_weaken; [apply scores_seq; [apply scores_add | apply scores_finding]| |];
          simpl; lra.
      * eapply scores_weaken; [apply scores_ret | |]; simpl; lra.
    + simpl. lra.
    + simpl. lra.
  - eapply scores_weaken; [apply scores_finding | |]; simpl; lra.
Qed.

Lemma scores_check_xcto h : scores 0 (Some 1) (check_x_content_type_options h).
Proof.
  unfold check_x_content_type_options. apply scores_if_present.
  - intros v. apply scores_cond.
    + eapply scores_weaken; [apply scores_seq; [apply scores_add | apply scores_finding]| |];
        simpl; lra.
    + eapply scores_weaken; [apply scores_finding | |]; simpl; lra.
  - eapply scores_weaken; [apply scores_finding | |]; simpl; lra.
Qed.

Lemma scores_check_rp h : scores 0 (Some (3#2)) (check_referrer_policy h).
Proof.
  unfold check_referrer_policy. apply scores_if_present.
  - intros v. eapply scores_weaken.
    + apply scores_seq; [apply scores_add|]. apply scores_seq; [apply scores_finding|].
      apply (scores_cond _ 0 (Some (1#2))).
      * eapply scores_weaken; [apply scores_seq; [apply scores_add | apply scores_finding]| |];
          simpl; lra.
      * eapply scores_weaken; [apply scores_ret | |]; simpl; lra.
    + simpl. lra.
    + simpl. lra.
  - eapply scores_weaken; [apply scores_finding | |]; simpl; lra.
Qed.

Lemma scores_check_fp h : scores 0 (Some 1) (check_feature_policy h).
Proof.
  unfold check_feature_policy. apply scores_if_present.
  - intros v. eapply scores_weaken; [apply scores_seq; [apply scores_add | apply scores_finding]| |];
      simpl; lra.
  - eapply scores_weaken; [apply scores_finding | |]; simpl; lra.
Qed.

Lemma scores_check_headers h : scores 0 None (check_headers h).
Proof.
  unfold check_headers.
  apply (scores_weaken (0 + (0 + (0 + (0 + (0 + 0)))))%Q
           (oplus None (oplus (Some (5#2)%Q) (oplus (Some (3#2)%Q)
              (oplus (Some 1%Q) (oplus (Some (3#2)%Q) (Some 1%Q))))))); [|lra|exact I].
  apply scores_seq; [apply scores_check_csp|].
  apply scores_seq; [apply scores_check_hsts|].
  apply scores_seq; [apply scores_check_xfo|].
  apply scores_seq; [apply scores_check_xcto|].
  apply scores_seq; [apply scores_check_rp|].
  apply scores_check_fp.
Qed.

(** *** CSP directives *)

Lemma contains_semi_cons c d :
  contains ";" (String c d) = false -> c <> ";"%char /\ contains ";" d = false.
Proof.
  intros H. simpl in H. apply orb_false_iff in H. destruct H as [H1 H2].
  split; [|exact H2]. rewrite andb_true_r in H1. intros ->. discriminate H1.
Qed.

Lemma split_no_semi d : contains ";" d = false -> split ";" d = [d].
Proof.
  induction d as [|c d IH]; intros H; [reflexivity|].
  apply contains_semi_cons in H. destruct H as [Hc Hd].
  simpl. rewrite (IH Hd). destruct (Ascii.eqb_spec c ";"); [contradiction | reflexivity].
Qed.

Lemma split_semi_app d rest :
  contains ";" d = false -> split ";" (d ++ String ";" rest) = d :: split ";" rest.
Proof.
  induction d as [|c d IH]; intros H; [reflexivity|].
  apply contains_semi_cons in H. destruct H as [Hc Hd].
  simpl. rewrite (IH Hd). destruct (Ascii.eqb_spec c ";"); [contradiction | reflexivity].
Qed.

Lemma split_join_semi l :
  l <> [] -> Forall (fun d => contains ";" d = false) l -> split ";" (join_semi l) = l.
Proof.
  induction l as [|d l IH]; intros Hne Hl; [contradiction|].
  inversion Hl as [|? ? Hd Hl']; subst.
  destruct l as [|d' l'].
  - apply split_no_semi, Hd.
  - change (join_semi (d :: d' :: l')) with (d ++ String ";" (join_semi (d' :: l'))).
    rewrite split_semi_app by exact Hd. rewrite IH; [reflexivity | discriminate | exact Hl'].
Qed.

Lemma csp_none_directive :
  runs_to (analyze_csp_directive "default-src 'none'")
    (delta ["CSP uses 'default-src: none' - strict policy"] 1).
Proof.
  intros s. split; [reflexivity|]. split; [reflexivity|]. apply Qeq_refl.
Qed.

Lemma for_each_repeat_delta (f : string -> M unit) x l q n :
  runs_to (f x) (delta l q) ->
  runs_to (for_each (repeat x n) f)
    (delta (concat (repeat l n)) (inject_Z (Z.of_nat n) * q)).
Proof.
  intros H. induction n as [|n IH]; simpl.
  - eapply runs_delta_ext; [apply runs_ret | reflexivity | simpl; ring].
  - eapply runs_delta_ext; [apply runs_seq_delta; [exact H | exact IH] | reflexivity |].
    rewrite Zpos_P_of_succ_nat, <- Z.add_1_r, inject_Z_plus. simpl. ring.
Qed.

(** *** Content scan *)

Lemma scores_unsafe_pattern content pm : scores (-1) (Some 0) (check_unsafe_pattern content pm).
Proof.
  destruct pm as [pat msg]. unfold check_unsafe_pattern.
  destruct (re_search pat content).
  - eapply scores_weaken; [apply scores_seq; [apply scores_finding | apply scores_add] | |];
      simpl; lra.
  - eapply scores_weaken; [apply scores_ret | |]; simpl; lra.
Qed.

Lemma scores_unsafe_loop content tbl :
  scores (- inject_Z (Z.of_nat (List.length tbl))) (Some 0)
         (for_each tbl (check_unsafe_pattern content)).
Proof.
  induction tbl as [|pm tbl IH]; simpl.
  - eapply scores_weaken; [apply scores_ret | unfold Qle; simpl; lia | simpl; lra].
  - eapply scores_weaken; [apply scores_seq; [apply scores_unsafe_pattern | exact IH] | |].
    + rewrite Zpos_P_of_succ_nat, <- Z.add_1_r, inject_Z_plus.
      change (inject_Z 1) with 1%Q. lra.
    + simpl. lra.
Qed.

Lemma scores_analyze_content content n fs :
  scores (- inject_Z (Z.of_nat n) - 6) (Some 1) (analyze_content (mk_page content n fs)).
Proof.
  unfold analyze_content. cbn [inline_scripts raw].
  apply (scores_weaken (- inject_Z (Z.of_nat n) + (- inject_Z 6 + 0))%Q
           (oplus (Some 0%Q) (oplus (Some 0%Q) (Some 1%Q)))).
  - apply scores_seq.
    + destruct n as [|n'].
      * eapply scores_weaken; [apply scores_ret | unfold Qle; simpl; lia | simpl; lra].
      * assert (Hn : (0 <= inject_Z (Z.of_nat (S n')))%Q) by (unfold Qle; simpl; lia).
        eapply scores_weaken; [apply scores_seq; [apply scores_finding | apply scores_add] | |];
          cbn [upto oplus]; lra.
    + apply scores_seq; [apply (scores_unsafe_loop _ unsafe_js_patterns)|].
      apply scores_cond.
      * eapply scores_weaken; [apply scores_seq; [apply scores_add | apply scores_finding] | |];
          simpl; lra.
      * eapply scores_weaken; [apply scores_ret | |]; simpl; lra.
  - change (inject_Z 6) with 6%Q. lra.
  - simpl. lra.
Qed.

(** *** CSRF tokens *)

Lemma match_prefix_none s : match_prefix RNone s = false.
Proof. destruct s; reflexivity. Qed.

Lemma match_prefix_lit_ci w s : match_prefix (lit_ci w) s = startswith (lower w) (lower s).
Proof.
  revert s. induction w as [|c w IH]; intros s; [destruct s; reflexivity|].
  destruct s as [|d s]; [reflexivity|].
  change (match_prefix (lit_ci (String c w)) (String d s))
    with (negb (is_none (RCat (ch_ci c) (lit_ci w)))
          && match_prefix (cat (if Ascii.eqb (lower_char d) (lower_char c) then REps else RNone)
                               (lit_ci w)) s).
  change (startswith (lower (String c w)) (lower (String d s)))
    with (Ascii.eqb (lower_char c) (lower_char d) && startswith (lower w) (lower s)).
  simpl negb. rewrite andb_true_l.
  destruct (Ascii.eqb_spec (lower_char d) (lower_char c)) as [E|E].
  - rewrite E, Ascii.eqb_refl, andb_true_l, <- IH. destruct w; reflexivity.
  - destruct (Ascii.eqb_spec (lower_char c) (lower_char d)); [congruence|].
    apply match_prefix_none.
Qed.

Lemma re_search_lit_ci w s : re_search (lit_ci w) s = contains (lower w) (lower s).
Proof.
  induction s as [|d s IH].
  - change (re_search (lit_ci w) "") with (match_prefix (lit_ci w) "" || false).
    rewrite match_prefix_lit_ci. reflexivity.
  - change (re_search (lit_ci w) (String d s))
      with (match_prefix (lit_ci w) (String d s) || re_search (lit_ci w) s).
    rewrite match_prefix_lit_ci, IH. reflexivity.
Qed.

Lemma check_forms_effect p s :
  check_forms p s =
  (Ok tt, mk_st (url_attr s) (score s)
     (findings s ++ map csrf_finding
        (filter (fun f => negb (existsb is_csrf_input (f_inputs f))) (forms p)))%list
     (vulnerabilities s) (sent s)).
Proof.
  unfold check_forms. generalize (forms p) as fs. intros fs. revert s.
  induction fs as [|f fs IH]; intros s; simpl.
  - destruct s; simpl. now rewrite app_nil_r.
  - unfold bind. destruct (existsb is_csrf_input (f_inputs f)); simpl.
    + rewrite IH. destruct s; reflexivity.
    + rewrite IH. simpl. rewrite <- app_assoc. reflexivity.
Qed.

(** *** The reflection phase leaves the score alone *)

Lemma keeps_nochange {A} (m : M A) :
  (forall s, score (snd (m s)) = score s /\ findings (snd (m s)) = findings s /\
             url_attr (snd (m s)) = url_attr s) -> keeps_score m.
Proof. intros H. exact H. Qed.

Lemma keeps_bind {A B} (m : M A) (k : A -> M B) :
  keeps_score m -> (forall a, keeps_score (k a)) -> keeps_score (bind m k).
Proof.
  intros Hm Hk s. destruct (Hm s) as (S1 & F1 & U1). unfold bind.
  destruct (m s) as [[a|ex] s1]; simpl in *.
  - destruct (Hk a s1) as (S2 & F2 & U2). repeat split; congruence.
  - repeat split; assumption.
Qed.

Lemma keeps_for_each {X} (xs : list X) f :
  (forall x, keeps_score (f x)) -> keeps_score (for_each xs f).
Proof.
  intros H. induction xs as [|x xs IH]; simpl.
  - intros s. repeat split.
  - apply keeps_bind; [apply H | intros _; exact IH].
Qed.

Lemma keeps_http cl rq : keeps_score (http cl rq).
Proof. intros s. unfold http. destruct (cl (sent s) rq); repeat split. Qed.

Lemma keeps_submit_payloads cl action method f payloads :
  forall last, keeps_score (submit_payloads cl action method f payloads last).
Proof.
  induction payloads as [|p ps IH]; intros last; simpl.
  - intros s. repeat split.
  - apply keeps_bind; [destruct (String.eqb method "post"); apply keeps_http | intros r; apply IH].
Qed.

Lemma keeps_check_reflected_xss e url p : keeps_score (check_reflected_xss e url p).
Proof.
  unfold check_reflected_xss. apply keeps_bind.
  - unfold check_url_params. apply keeps_for_each. intros [param values].
    destruct values as [|value0 rest]; [intros s; repeat split|].
    apply keeps_for_each. intros payload. unfold probe_param.
    apply keeps_bind; [apply keeps_http|]. intros r s.
    destruct (contains payload (text r)); repeat split.
  - intros _. apply keeps_for_each. intros f.
    apply keeps_bind; [|intros v s; destruct v; repeat split].
    unfold check_form_xss. apply keeps_bind; [apply keeps_submit_payloads|].
    intros [[payload response_text]|] s; [destruct (contains payload response_text)|];
      repeat split.
Qed.

(** *** Query parameters *)








(** *** The field dict of a form *)

Lemma dict_set_keys k v d x : In x (map fst (dict_set k v d)) <-> x = k \/ In x (map fst d).
Proof.
  induction d as [|[k' v'] d IH]; simpl; [intuition congruence|].
  destruct (String.eqb_spec k k') as [->|Hne]; simpl; [intuition congruence|].
  rewrite IH. intuition congruence.
Qed.

Lemma dict_set_nodup k v d : NoDup (map fst d) -> NoDup (map fst (dict_set k v d)).
Proof.
  induction d as [|[k' v'] d IH]; intros H; simpl.
  - constructor; [intros []|constructor].
  - inversion H as [|? ? Hk' Hd]; subst.
    destruct (String.eqb_spec k k') as [->|Hne]; simpl; [exact H|].
    constructor; [|apply IH, Hd].
    rewrite dict_set_keys. intros [E|E]; [congruence | contradiction].
Qed.

Lemma dict_set_values k v d k' v' : In (k', v') (dict_set k v d) -> v' = v \/ In (k', v') d.
Proof.
  induction d as [|[k0 v0] d IH]; simpl.
  - intros [E|[]]. injection E as _ <-. tauto.
  - destruct (String.eqb k k0) eqn:E; simpl.
    + intros [E'|H]; [injection E' as _ <-; tauto | tauto].
    + intros [E'|H]; [tauto|]. destruct (IH H); tauto.
Qed.

Lemma form_fields_spec f p :
  NoDup (map fst (form_fields f p)) /\
  (forall k v, In (k, v) (form_fields f p) -> v = p) /\
  (forall k, In k (map fst (form_fields f p)) <->
             k <> "" /\ exists i, In i (f_inputs f) /\ in_name i = Some k).
Proof.
  unfold form_fields.
  assert (G : forall l d,
    NoDup (map fst d) -> (forall k v, In (k, v) d -> v = p) ->
    let r := fold_left (fun d i => match in_name i with
                                   | Some n => if String.eqb n "" then d else dict_set n p d
                                   | None => d
                                   end) l d in
    NoDup (map fst r) /\ (forall k v, In (k, v) r -> v = p) /\
    (forall k, In k (map fst r) <->
               In k (map fst d) \/ (k <> "" /\ exists i, In i l /\ in_name i = Some k))).
  { induction l as [|i l IH]; intros d Hnd Hv; simpl.
    - split; [exact Hnd|]. split; [exact Hv|]. intros k. split; [tauto|].
      intros [H|[_ [i [[] _]]]]. exact H.
    - destruct (in_name i) as [n|] eqn:En; [destruct (String.eqb_spec n "") as [En'|En']|].
      + destruct (IH d Hnd Hv) as (A & B & C). split; [exact A|]. split; [exact B|].
        intros k. rewrite C. split.
        * intros [H|[Hk [j [Hj Hn]]]]; [tauto | right; split; [exact Hk | exists j; tauto]].
        * intros [H|[Hk [j [[<-|Hj] Hn]]]]; [tauto | congruence | right; split; [exact Hk|eauto]].
      + destruct (IH (dict_set n p d)) as (A & B & C).
        * apply dict_set_nodup, Hnd.
        * intros k v Hin. destruct (dict_set_values _ _ _ _ _ Hin); [assumption | eapply Hv; eauto].
        * split; [exact A|]. split; [exact B|]. intros k. rewrite C, dict_set_keys. split.
          -- intros [[->|H]|[Hk [j [Hj Hn]]]].
             ++ right. split; [exact En' | exists i; tauto].
             ++ tauto.
             ++ right. split; [exact Hk | exists j; tauto].
          -- intros [H|[Hk [j [[<-|Hj] Hn]]]].
             ++ tauto.
             ++ left. left. congruence.
             ++ right. split; [exact Hk | eauto].
      + destruct (IH d Hnd Hv) as (A & B & C). split; [exact A|]. split; [exact B|].
        intros k. rewrite C. split.
        * intros [H|[Hk [j [Hj Hn]]]]; [tauto | right; split; [exact Hk | exists j; tauto]].
        * intros [H|[Hk [j [[<-|Hj] Hn]]]]; [tauto | congruence | right; split; [exact Hk|eauto]]. }
  destruct (G (f_inputs f) [] (NoDup_nil _) (fun _ _ H => match H with end)) as (A & B & C).
  split; [exact A|]. split; [exact B|]. intros k. rewrite C. simpl. tauto.
Qed.

(** *** A page with a form *)

Lemma check_form_xss_returns_none e url f payloads :
  on_return (fun v _ => v = PyNone) (check_form_xss e url f payloads).
Proof.
  unfold check_form_xss. apply on_return_bind.
  intros [[payload response_text]|] s; [destruct (contains payload response_text)|];
    try reflexivity; exact I.
Qed.

Lemma check_reflected_xss_raises e url p s :
  forms p <> [] -> exists ex, fst (check_reflected_xss e url p s) = Exn ex.
Proof.
  intros Hf. unfold check_reflected_xss. cbv zeta. unfold bind at 1.
  destruct (check_url_params (http_client e) url generate_payloads s) as [[[]|ex] s1];
    [|exists ex; reflexivity].
  destruct (forms p) as [|f fs]; [contradiction|]. cbn [for_each].
  unfold bind at 1 2.
  pose proof (check_form_xss_returns_none e url f generate_payloads s1) as H. unfold on_return in H.
  destruct (check_form_xss e url f generate_payloads s1) as [[v|ex] s2].
  - subst v. simpl. eexists. reflexivity.
  - eexists. reflexivity.
Qed.

Lemma runs_add_score q : runs_to (add_score q) (delta [] q).
Proof. intros s. split; [reflexivity|]. split; [symmetry; apply app_nil_r | apply Qeq_refl]. Qed.

Lemma runs_append_finding m : runs_to (append_finding m) (delta [m] 0).
Proof. intros s. split; [reflexivity|]. split; [reflexivity | simpl; ring]. Qed.

Lemma concat_repeat_single {A} (x : A) n : concat (repeat [x] n) = repeat x n.
Proof. induction n as [|n IH]; simpl; [reflexivity | now rewrite IH]. Qed.


(** *** Extra properties *)



(** X3: the Feature-Policy check adds 1 and its "present" finding when
    Feature-Policy or Permissions-Policy is present and non-empty (an empty
    Feature-Policy falls back to Permissions-Policy), and otherwise only its
    "missing" finding. *)
Theorem X3_feature_policy_fallback (h : headers) :
  runs_to (check_feature_policy h)
    (delta [if nonempty (h "Feature-Policy") || nonempty (h "Permissions-Policy")
            then "Feature-Policy/Permissions-Policy header present - good"
            else "Feature-Policy/Permissions-Policy header missing - consider implementing to control browser features"]
           (if nonempty (h "Feature-Policy") || nonempty (h "Permissions-Policy")
            then 1 else 0)).
Proof.
  intros s. unfold check_feature_policy, py_or, if_present, nonempty.
  destruct (h "Feature-Policy") as [v|]; [destruct (String.eqb v "") eqn:Ev|];
    destruct (h "Permissions-Policy") as [w|]; try destruct (String.eqb w "") eqn:Ew;
    cbn [negb orb]; try rewrite Ev; try rewrite Ew;
    (split; [reflexivity | split; [reflexivity | simpl; ring]]).
Qed.

(** X5: repeated CSP directives are each counted: a CSP header made of
    [n+1] copies of [default-src 'none'] adds [n+2] to the score (1 for the
    header, 1 per copy) and one finding per copy. *)
Theorem X5_repeated_csp_directive_counted (n : nat) (h : headers)
  (Hh : h "Content-Security-Policy" = Some (join_semi (repeat "default-src 'none'" (S n)))) :
  runs_to (check_content_security_policy h)
    (delta ("CSP header present - good"
            :: repeat "CSP uses 'default-src: none' - strict policy" (S n))
           (inject_Z (Z.of_nat (S n)) + 1)).
Proof.
  unfold check_content_security_policy. rewrite Hh. unfold if_present.
  replace (String.eqb (join_semi (repeat "default-src 'none'" (S n))) "") with false
    by (destruct n; reflexivity).
  unfold analyze_csp. rewrite split_join_semi.
  - eapply runs_delta_ext.
    + apply runs_seq_delta; [apply runs_add_score|].
      apply runs_seq_delta; [apply runs_append_finding|].
      apply (for_each_repeat_delta _ _ _ _ (S n) csp_none_directive).
    + simpl. rewrite concat_repeat_single. reflexivity.
    + ring.
  - discriminate.
  - apply Forall_forall. intros d Hd. apply repeat_spec in Hd. subst d. reflexivity.
Qed.

Lemma X5_repeated_csp_directive_counted_witness :
  csp_only (join_semi (repeat "default-src 'none'" 3)) "Content-Security-Policy" =
    Some (join_semi (repeat "default-src 'none'" 3)) /\
  runs_to (check_content_security_policy (csp_only (join_semi (repeat "default-src 'none'" 3))))
    (delta ("CSP header present - good"
            :: repeat "CSP uses 'default-src: none' - strict policy" 3)
           (inject_Z (Z.of_nat 3) + 1)).
Proof.
  assert (Hh : csp_only (join_semi (repeat "default-src 'none'" 3)) "Content-Security-Policy" =
               Some (join_semi (repeat "default-src 'none'" 3))) by reflexivity.
  split; [exact Hh|].
  exact (X5_repeated_csp_directive_counted 2 _ Hh).
Defined.

(** X6: the static content scan returns normally, sends no request, leaves
    the vulnerabilities and the URL alone, appends at most 8 findings, and
    changes the score by at least -(inline scripts + 6) and at most +1. *)
Theorem X6_content_scan_bounds (content : string) (n : nat) (fs : list form) (s : st) :
  let s' := snd (analyze_content (mk_page content n fs) s) in
  fst (analyze_content (mk_page content n fs) s) = Ok tt /\
  url_attr s' = url_attr s /\ vulnerabilities s' = vulnerabilities s /\ sent s' = sent s /\
  (exists l, findings s' = (findings s ++ l)%list /\ (List.length l <= 8)%nat) /\
  (score s - inject_Z (Z.of_nat n) - 6 <= score s')%Q /\ (score s' <= score s + 1)%Q.
Proof.
  cbv zeta. destruct (scores_analyze_content content n fs s) as (R & U & V & Sn & _ & L & H).
  destruct (analyze_content_effect content n fs s) as (_ & F & _).
  repeat split; try assumption.
  - eexists. split; [exact F|]. rewrite !length_app.
    assert (Hi : (List.length (inline_findings n) <= 1)%nat) by (destruct n; simpl; lia).
    assert (He : (List.length (encoding_findings content) <= 1)%nat)
      by (unfold encoding_findings; destruct (re_search _ _); simpl; lia).
    assert (Hm : (List.length (map snd (matching_signatures content)) <= 6)%nat)
      by (rewrite length_map; apply (filter_length_le _ unsafe_js_patterns)).
    lia.
  - unfold Qminus in *. lra.
Qed.

(** X7: when the input names of the page are ASCII, the CSRF check
    appends, in page order, one finding "Form <id or unknown> lacks CSRF
    token ..." for each form none of whose inputs is a CSRF token input, and
    changes nothing else. *)
Theorem X7_one_finding_per_form_without_token (p : page) (s : st)
  (Hn : Forall (fun f => forallb name_ascii (f_inputs f) = true) (forms p)) :
  check_forms p s =
  (Ok tt, mk_st (url_attr s) (score s)
     (findings s ++ map csrf_finding
        (filter (fun f => negb (existsb is_csrf_input (f_inputs f))) (forms p)))%list
     (vulnerabilities s) (sent s)).
Proof. apply check_forms_effect. Qed.

Lemma X7_one_finding_per_form_without_token_witness :
  Forall (fun f => forallb name_ascii (f_inputs f) = true) (forms two_form_page) /\
  check_forms two_form_page init_st =
  (Ok tt, mk_st None 0%Q
     (map csrf_finding
        (filter (fun f => negb (existsb is_csrf_input (f_inputs f))) (forms two_form_page)))
     [] []).
Proof.
  assert (Hn : Forall (fun f => forallb name_ascii (f_inputs f) = true) (forms two_form_page))
    by (repeat constructor).
  split; [exact Hn|].
  exact (X7_one_finding_per_form_without_token two_form_page init_st Hn).
Defined.

(** X8: an input with an ASCII name (or none) counts as a CSRF token
    exactly when its type is the exact string "hidden" and its name contains
    "csrf" in any letter case. *)
Theorem X8_csrf_token_recognition (i : input_tag) (Hn : name_ascii i = true) :
  is_csrf_input i = true <->
  in_type i = Some "hidden" /\ exists n, in_name i = Some n /\ contains "csrf" (lower n) = true.
Proof.
  unfold is_csrf_input.
  destruct (in_type i) as [t|], (in_name i) as [n|];
    try (split; [discriminate | intros [E [n' [E' _]]]; discriminate]).
  rewrite re_search_lit_ci. change (lower "csrf") with "csrf".
  rewrite andb_true_iff, String.eqb_eq. split.
  - intros [-> H]. split; [reflexivity | exists n; split; [reflexivity | exact H]].
  - intros [E [n' [E' H]]]. injection E as ->. injection E' as <-. split; [reflexivity | exact H].
Qed.

Lemma X8_csrf_token_recognition_witness :
  name_ascii (mk_input (Some "hidden") (Some "my_CSRF_token")) = true /\
  (is_csrf_input (mk_input (Some "hidden") (Some "my_CSRF_token")) = true <->
   Some "hidden" = Some "hidden" /\
   exists n, Some "my_CSRF_token" = Some n /\ contains "csrf" (lower n) = true).
Proof.
  assert (Hn : name_ascii (mk_input (Some "hidden") (Some "my_CSRF_token")) = true)
    by reflexivity.
  split; [exact Hn|].
  exact (X8_csrf_token_recognition _ Hn).
Defined.





(** X11: the field dict of a form has one key per distinct non-empty input
    name of the form, and maps every key to the payload. *)
Theorem X11_form_fields_dict (f : form) (p : string) :
  NoDup (map fst (form_fields f p)) /\
  (forall k v, In (k, v) (form_fields f p) -> v = p) /\
  (forall k, In k (map fst (form_fields f p)) <->
             k <> "" /\ exists i, In i (f_inputs f) /\ in_name i = Some k).
Proof. apply form_fields_spec. Qed.

(** X12: the reflection probes never change the score, the findings or the
    URL, whatever the client does (also when it raises). *)
Theorem X12_reflection_keeps_score (e : env) (url : string) (p : page) (s : st) :
  let s' := snd (check_reflected_xss e url p s) in
  score s' = score s /\ findings s' = findings s /\ url_attr s' = url_attr s.
Proof. apply keeps_check_reflected_xss. Qed.




(** *** Accumulation over a whole run *)




Lemma appends_weaken {A} (P Q : vuln -> Prop) (m : M A) :
  (forall v, P v -> Q v) -> appends_only P m -> appends_only Q m.
Proof.
  intros HPQ H s. destruct (H s) as [n [E F]]. exists n. split; [exact E|].
  eapply Forall_impl; [exact HPQ | exact F].
Qed.

Lemma appends_scores P lo hi (m : M unit) : scores lo hi m -> appends_only P m.
Proof. intros H. apply appends_nochange. intros s. apply H. Qed.

Lemma propagates_scores cl lo hi (m : M unit) : scores lo hi m -> propagates cl m.
Proof. intros H. apply propagates_nosend. intros s. apply H. Qed.


Lemma check_reflected_xss_propagates e url p :
  propagates (http_client e) (check_reflected_xss e url p).
Proof.
  unfold check_reflected_xss.
  apply propagates_bind; [apply propagates_check_url_params|]. intros _.
  apply propagates_for_each. intros f.
  apply propagates_bind; [apply propagates_check_form_xss|]. intros v.
  apply propagates_nosend. intros s. destruct v; reflexivity.
Qed.

Lemma generate_report_effect (s : st) :
  match url_attr s with
  | None => generate_report s = (Exn (AttributeError "url"), s)
  | Some u => generate_report s =
      (Ok PyNone, mk_st (Some u) (score s) (findings s)
                    (vulnerabilities s ++ [VReport (mk_report u (score s) (findings s)
                                                     (overall_assessment (score s)))])%list
                    (sent s))
  end.
Proof. destruct s as [[u|] sc fs vs rs]; reflexivity. Qed.




(** X16: a run of [analyze] only appends to the request log, and when the
    client raises on one of the requests it sends, that request is the last
    one sent and its exception is the outcome of [analyze]. *)
Theorem X16_analyze_propagates_client_errors (e : env) (url : string) (p : page) :
  propagates (http_client e) (analyze e url p).
Proof.
  unfold analyze.
  apply propagates_bind; [apply propagates_nosend; reflexivity|]. intros _.
  apply propagates_bind; [apply (propagates_scores _ _ _ _ (scores_check_headers _))|]. intros _.
  destruct p as [content n fs].
  apply propagates_bind; [apply (propagates_scores _ _ _ _ (scores_analyze_content content n fs))|].
  intros _.
  apply propagates_bind; [apply propagates_nosend; intros s; rewrite check_forms_effect; reflexivity|].
  intros _.
  apply propagates_bind; [apply check_reflected_xss_propagates|]. intros _.
  apply propagates_nosend. intros s. pose proof (generate_report_effect s) as G.
  destruct (url_attr s); rewrite G; reflexivity.
Qed.

(** *** The score a CSP header can earn *)

Lemma scores_for_each_bounded {X} (xs : list X) f c :
  (forall x, scores 0 (Some c) (f x)) ->
  scores 0 (Some (inject_Z (Z.of_nat (List.length xs)) * c)) (for_each xs f).
Proof.
  intros H. induction xs as [|x xs IH]; cbn [for_each].
  - eapply scores_weaken; [apply scores_ret | lra |].
    change (0 <= 0 * c)%Q. lra.
  - eapply scores_weaken; [apply scores_seq; [apply H | apply IH] | lra |].
    cbn [oplus List.length]. rewrite Nat2Z.inj_succ. unfold Z.succ. rewrite inject_Z_plus.
    change (inject_Z 1) with 1%Q. lra.
Qed.

(** X17: a present, non-empty CSP header earns between 1 and 1 plus the
    number of its [;]-separated directives: 1 for the header and at most 1
    per directive, none of which lowers the score. *)
Theorem X17_csp_score_bounds (h : headers) (v : string)
  (Hh : h "Content-Security-Policy" = Some v) (Hv : v <> "") :
  scores 1 (Some (1 + inject_Z (Z.of_nat (List.length (split ";" v)))))
    (check_content_security_policy h).
Proof.
  unfold check_content_security_policy, if_present. rewrite Hh.
  destruct (String.eqb_spec v "") as [E|_]; [contradiction|].
  eapply scores_weaken.
  - apply scores_seq; [apply scores_add|]. apply scores_seq; [apply scores_finding|].
    apply scores_for_each_bounded. apply scores_csp_directive.
  - lra.
  - cbn [oplus]. lra.
Qed.

Lemma X17_csp_score_bounds_witness :
  csp_only "default-src 'self'; script-src 'unsafe-inline'" "Content-Security-Policy" =
    Some "default-src 'self'; script-src 'unsafe-inline'" /\
  "default-src 'self'; script-src 'unsafe-inline'" <> "" /\
  scores 1 (Some (1 + inject_Z (Z.of_nat (List.length (split ";" "default-src 'self'; script-src 'unsafe-inline'")))))
    (check_content_security_policy (csp_only "default-src 'self'; script-src 'unsafe-inline'")).
Proof.
  assert (Hh : csp_only "default-src 'self'; script-src 'unsafe-inline'" "Content-Security-Policy" =
               Some "default-src 'self'; script-src 'unsafe-inline'") by reflexivity.
  assert (Hv : "default-src 'self'; script-src 'unsafe-inline'" <> "") by discriminate.
  split; [exact Hh|]. split; [exact Hv|].
  exact (X17_csp_score_bounds _ _ Hh Hv).
Defined.

(** *** The max-age of an HSTS header *)

Lemma substring_full x : substring 0 (String.length x) x = x.
Proof. induction x as [|c x IH]; simpl; congruence. Qed.

Lemma drop_max_age x : drop 8 ("max-age=" ++ x) = x.
Proof. unfold drop. simpl. rewrite Nat.sub_0_r. apply substring_full. Qed.

Lemma digits_prefix_app d rest :
  all_digits d = true -> starts_with_digit rest = false -> digits_prefix (d ++ rest) = d.
Proof.
  intros Hd Hr. induction d as [|c d IH]; simpl in *.
  - destruct rest as [|c rest]; simpl in *; [reflexivity | now rewrite Hr].
  - apply andb_true_iff in Hd as [Hc Hd]. rewrite Hc, IH by exact Hd. reflexivity.
Qed.

Lemma search_max_age_step s :
  search_max_age s =
  (let g := if startswith "max-age=" s then digits_prefix (drop 8 s) else EmptyString in
   match g with
   | String _ _ => Some g
   | EmptyString => match s with EmptyString => None | String _ s' => search_max_age s' end
   end).
Proof. destruct s; reflexivity. Qed.

Lemma search_max_age_run d rest :
  d <> "" -> all_digits d = true -> starts_with_digit rest = false ->
  search_max_age ("max-age=" ++ d ++ rest) = Some d.
Proof.
  intros Hne Hd Hr. rewrite search_max_age_step. cbv zeta.
  replace (startswith "max-age=" ("max-age=" ++ d ++ rest)) with true by reflexivity.
  rewrite drop_max_age, digits_prefix_app by assumption.
  destruct d as [|c d]; [contradiction | reflexivity].
Qed.

(** X18: the max-age search reads the whole run of digits right after
    [max-age=]: on [max-age=] followed by a non-empty run of ASCII digits
    [d] and then by ASCII text not starting with a digit, it returns [d]. *)
Theorem X18_max_age_reads_digit_run (d rest : string)
  (Hne : d <> "") (Hd : all_digits d = true) (Ha : ascii_only rest = true)
  (Hr : starts_with_digit rest = false) :
  search_max_age ("max-age=" ++ d ++ rest) = Some d.
Proof. apply search_max_age_run; assumption. Qed.

Lemma X18_max_age_reads_digit_run_witness :
  "31536000" <> "" /\ all_digits "31536000" = true /\ starts_with_digit "; preload" = false /\
  ascii_only "; preload" = true /\
  search_max_age ("max-age=" ++ "31536000" ++ "; preload") = Some "31536000".
Proof.
  assert (Hne : "31536000" <> "") by discriminate.
  assert (Hd : all_digits "31536000" = true) by reflexivity.
  assert (Hr : starts_with_digit "; preload" = false) by reflexivity.
  assert (Ha : ascii_only "; preload" = true) by reflexivity.
  split; [exact Hne|]. split; [exact Hd|]. split; [exact Hr|]. split; [exact Ha|].
  exact (X18_max_age_reads_digit_run _ _ Hne Hd Ha Hr).
Defined.



End Proofs.
